(** * actionlint: bounded-concurrency process runner (process.go)

    A shallow embedding of [process.go]: [runProcessWithStdin] as a pure
    function of what the operating system answered to the three library calls
    it makes, and the manager ([newConcurrentProcess], [run], [wait]) as an
    interleaving transition system over the semaphore, the error group and
    the goroutines that [run] spawns.

    What the model takes for granted: one goroutine owns the manager and
    calls [run] for each task and then [wait]; every started process ends
    (process.go has no timeout); a callback is a total function of its two
    arguments.  The write of the input into the stdin pipe (line 39) is not
    taken for granted: it happens before the process is started (line 45),
    while nothing reads the pipe, so it may never return.  Go's [int] and [int64] are read as [Z]: the only arithmetic
    is the semaphore adding and subtracting 1. *)

From Stdlib Require Import ZArith Lia DecimalString.
From Stdlib Require Import Strings.Byte Strings.Ascii.
From stdpp Require Import base list strings relations.

Open Scope Z_scope.

(** ** Go values used by process.go *)

(** A [[]byte]: [None] is the nil slice, [Some l] a slice holding [l]. *)
Definition bytes : Type := option (list byte).

Definition len (b : bytes) : Z :=
  match b with
  | None => 0
  | Some l => Z.of_nat (length l)
  end.

Definition contents (b : bytes) : list byte :=
  match b with
  | None => []
  | Some l => l
  end.

(** [os.ProcessState] as far as [ExitCode] looks at it: the process exited
    and left an (unsigned) exit status, or it was ended by a signal, or no
    exit status is available at all. *)
Inductive ProcessState : Type :=
  | Exited (status : N)
  | Signaled (sig : N)
  | NoStatus.

(** The [ExitCode] method of [os.ProcessState]: the exit status of an exited process,
    -1 when the process has not exited or was terminated by a signal. *)
Definition ExitCode (ps : ProcessState) : Z :=
  match ps with
  | Exited status => Z.of_N status
  | Signaled _ => -1
  | NoStatus => -1
  end.

(** Go [error] values that can flow through process.go.  A nil error is
    [None] in [option error]. *)
Inductive error : Type :=
  | ExitError (ps : ProcessState) (Stderr : bytes)  (* exec.ExitError *)
  | OSError (msg : string)            (* any other error of os, os/exec, io *)
  | errorString (s : string)          (* errors.New, fmt.Errorf without %w *)
  | wrapError (msg : string) (err : error).  (* fmt.Errorf with one %w *)

(** [errors.Unwrap]. *)
Definition Unwrap (e : error) : option error :=
  match e with
  | wrapError _ err => Some err
  | _ => None
  end.

(** What the platform supplies and process.go only calls: the quoting of
    the [%q] verb (strconv) and the rendering of a process state. *)
Class Platform : Type := {
  quote : list byte → string;
  ProcessState_String : ProcessState → string
}.

(** Operands of a formatting call. *)
Inductive arg : Type :=
  | arg_string (s : string)
  | arg_int (n : Z)
  | arg_bytes (b : bytes)
  | arg_error (e : error).

(** What becomes of [io.WriteString(p, stdin)]: it returns its error, or,
    the pipe having no reader yet, it blocks for good on an input longer
    than the pipe's buffer. *)
Inductive Written : Type :=
  | WriteBlocks
  | WriteReturns (err : option error).

(** What the operating system answers to the three library calls that one
    call of [runProcessWithStdin] makes. *)
Record ProcessWorld : Type := {
  StdinPipe : option error;            (* err of cmd.StdinPipe() *)
  WriteString : Written;               (* io.WriteString(p, stdin) *)
  Output : bytes * option error        (* stdout, err of cmd.Output() *)
}.

Section Formatting.
Context {platform : Platform}.

(** [strconv.Itoa] / the [%d] verb. *)
Definition itoa (n : Z) : string := NilZero.string_of_int (Z.to_int n).

(** The [Error] method. *)
Definition Error (e : error) : string :=
  match e with
  | ExitError ps _ => ProcessState_String ps
  | OSError msg => msg
  | errorString s => s
  | wrapError msg _ => msg
  end.

(** One verb applied to one operand, for the verbs process.go uses
    ([%s] on a string, [%d] on an int, [%q] on a byte slice, [%w] on an
    error); any other pairing gives Go's bad-verb marker. *)
Definition format_verb (v : ascii) (a : arg) : string :=
  match a with
  | arg_string s => if decide (v = "s"%char) then s else "%!(BADVERB)"
  | arg_int n => if decide (v = "d"%char) then itoa n else "%!(BADVERB)"
  | arg_bytes b => if decide (v = "q"%char) then quote (contents b) else "%!(BADVERB)"
  | arg_error e => if decide (v = "w"%char) then Error e else "%!(BADVERB)"
  end.

(** [fmt.Sprintf]: literal text is copied, a verb consumes the next
    operand. *)
Fixpoint Sprintf (format : string) (a : list arg) : string :=
  match format with
  | EmptyString => EmptyString
  | String c EmptyString => String c EmptyString
  | String c (String v rest as tl) =>
      if decide (c = "%"%char) then
        match a with
        | x :: a' => format_verb v x +:+ Sprintf rest a'
        | [] => "%!(MISSING)" +:+ Sprintf rest []
        end
      else String c (Sprintf tl a)
  end.

(** The operand of the first [%w] verb, when it is an error. *)
Fixpoint wrapped (format : string) (a : list arg) : option error :=
  match format with
  | EmptyString => None
  | String c EmptyString => None
  | String c (String v rest as tl) =>
      if decide (c = "%"%char) then
        match a with
        | arg_error e :: a' =>
            if decide (v = "w"%char) then Some e else wrapped rest a'
        | _ :: a' => wrapped rest a'
        | [] => None
        end
      else wrapped tl a
  end.

(** [fmt.Errorf]: a wrapping error when the format has a [%w] with an
    error operand, a plain message error otherwise. *)
Definition Errorf (format : string) (a : list arg) : error :=
  match wrapped format a with
  | Some e => wrapError (Sprintf format a) e
  | None => errorString (Sprintf format a)
  end.

(** ** process.go: runProcessWithStdin *)

(** [None]: the call never returns. *)
Definition runProcessWithStdin (w : ProcessWorld)
    (exe : string) (args : list string) (stdin : string)
    : option (bytes * option error) :=
  match StdinPipe w with
  | Some err =>
      Some (None, Some (Errorf "could not make stdin pipe for %s process: %w"
                               [arg_string exe; arg_error err]))
  | None =>
  match WriteString w with
  | WriteBlocks => None
  | WriteReturns (Some err) =>
      Some (None, Some (Errorf "could not write to stdin of %s process: %w"
                               [arg_string exe; arg_error err]))
  | WriteReturns None =>
  let '(stdout, err) := Output w in
  match err with
  | Some (ExitError ps Stderr) =>
      let code := ExitCode ps in
      if code <? 0 then
        Some (None, Some (Errorf "%s was terminated. stderr: %q"
                                 [arg_string exe; arg_bytes Stderr]))
      else if len stdout =? 0 then
        Some (None, Some (Errorf "%s exited with status %d but stdout was empty. stderr: %q"
                                 [arg_string exe; arg_int code; arg_bytes Stderr]))
      else
        (* exit status is non-zero and stdout is not empty *)
        Some (stdout, None)
  | Some err => Some (None, Some err)
  | None => Some (stdout, None)
  end
  end
  end.

(** The errors [runProcessWithStdin] builds for a process that did not
    end the way a linter run does: killed (line 50) or exited non-zero
    without printing anything (line 53). *)
Inductive TerminatedAbnormally (exe : string) : error → Prop :=
  | was_terminated (Stderr : bytes) :
      TerminatedAbnormally exe
        (Errorf "%s was terminated. stderr: %q"
                [arg_string exe; arg_bytes Stderr])
  | exited_without_output (code : Z) (Stderr : bytes) :
      TerminatedAbnormally exe
        (Errorf "%s exited with status %d but stdout was empty. stderr: %q"
                [arg_string exe; arg_int code; arg_bytes Stderr]).

End Formatting.

(** [part] occurs in [whole]. *)
Definition includes (part whole : string) : Prop :=
  ∃ pre post, whole = pre +:+ part +:+ post.

(** ** The libraries the manager is built from *)

(** A Go call either returns or panics. *)
Inductive Call (A : Type) : Type :=
  | Return (a : A)
  | Panic (msg : string).
Arguments Return {A} a.
Arguments Panic {A} msg.

Definition failed {A : Type} (c : Call A) : Prop :=
  match c with
  | Return _ => False
  | Panic _ => True
  end.

(** [context.Background()]: never cancelled, its [Done] channel is nil, so
    receiving from it blocks forever. *)
Inductive Context : Type := Background.

(** [semaphore.Weighted].  Its queue of waiters is not a field here: the
    only goroutine that calls [Acquire] is the one calling [run], so the
    queue is empty or holds that caller, which the caller's own state
    records ([AcquireWait]). *)
Record Weighted : Type := {
  size : Z;
  cur : Z
}.

Definition NewWeighted (n : Z) : Weighted := {| size := n; cur := 0 |}.

(** The three ways [Acquire(ctx, n)] proceeds when the context is never
    done and nobody is queued: it takes the slots at once, or it waits for
    the context alone (a request larger than the semaphore), or it queues
    and waits for a [Release]. *)
Inductive Acquiring : Type :=
  | Taken (s : Weighted)
  | Doomed
  | Queued.

Definition Acquire (s : Weighted) (n : Z) : Acquiring :=
  if size s - cur s >=? n then Taken {| size := size s; cur := cur s + n |}
  else if n >? size s then Doomed
  else Queued.

(** [Release(n)] up to its call of [notifyWaiters]. *)
Definition Release (s : Weighted) (n : Z) : Call Weighted :=
  let cur' := cur s - n in
  if cur' <? 0 then Panic "semaphore: released more than held"
  else Return {| size := size s; cur := cur' |}.

(** [errgroup.Group] (zero value, so without a cancel function): the
    counter of its [sync.WaitGroup] and the error kept by [errOnce]. *)
Record Group : Type := {
  wg : Z;
  err : option error
}.

Definition Group_zero : Group := {| wg := 0; err := None |}.

(** [Go] before it starts the goroutine: [g.wg.Add(1)]. *)
Definition Group_add (g : Group) : Group :=
  {| wg := wg g + 1; err := err g |}.

(** The end of the goroutine [Go] starts: the first non-nil error is
    kept, then [g.wg.Done()]. *)
Definition Group_done (g : Group) (r : option error) : Group :=
  {| wg := wg g - 1;
     err := match err g with
            | Some e => Some e
            | None => r
            end |}.

(** [Wait]: blocked ([None]) until the counter is zero, then the kept
    error. *)
Definition Group_Wait (g : Group) : option (option error) :=
  if wg g =? 0 then Some (err g) else None.

(** ** process.go: the manager *)

Record concurrentProcess : Type := {
  ctx : Context;
  sema : Weighted;
  eg : Group
}.

Definition newConcurrentProcess (par : Z) : Call concurrentProcess :=
  Return {| ctx := Background; sema := NewWeighted par; eg := Group_zero |}.

(** The arguments of one call of [run], together with what the operating
    system will answer to the process that call starts. *)
Record Task : Type := {
  exe : string;
  args : list string;
  stdin : string;
  callback : bytes → option error → option error;
  world : ProcessWorld
}.

(** The goroutine that owns the manager: it calls [run] for each task of
    [todo] in turn and then [wait]. *)
Inductive Caller : Type :=
  | Submitting (todo : list Task)
  | AcquireWait (t : Task) (todo : list Task)
  | AcquireDoomed (t : Task) (todo : list Task)
  | Acquired (t : Task) (todo : list Task)
  | Joined (r : option error).

(** The goroutine that [run] starts through [eg.Go], by the statement it
    executes next: [runProcessWithStdin], [sema.Release], the callback,
    the return into the group; or it is over. *)
Inductive Worker : Type :=
  | Started (t : Task)
  | Ran (t : Task) (stdout : bytes) (e : option error)
  | Released (t : Task) (stdout : bytes) (e : option error)
  | CallbackReturned (t : Task) (stdout : bytes) (e r : option error)
  | Finished (t : Task) (stdout : bytes) (e r : option error).

Record State : Type := {
  proc : concurrentProcess;
  caller : Caller;
  workers : list Worker;
  crashed : option string
}.

Definition init (p : concurrentProcess) (tasks : list Task) : State :=
  {| proc := p; caller := Submitting tasks; workers := []; crashed := None |}.

Definition task_of (w : Worker) : Task :=
  match w with
  | Started t | Ran t _ _ | Released t _ _
  | CallbackReturned t _ _ _ | Finished t _ _ _ => t
  end.

(** Tasks not yet handed to [eg.Go]. *)
Definition pending (c : Caller) : list Task :=
  match c with
  | Submitting todo => todo
  | AcquireWait t todo | AcquireDoomed t todo | Acquired t todo => t :: todo
  | Joined _ => []
  end.

(** A goroutine is between "gate acquired" and "gate released" from its
    start until its [Release]; the caller is there between the return of
    [Acquire] and [eg.Go]. *)
Definition holding (w : Worker) : nat :=
  match w with
  | Started _ | Ran _ _ _ => 1
  | _ => 0
  end.

Definition caller_holding (c : Caller) : nat :=
  match c with
  | Acquired _ _ => 1
  | _ => 0
  end.

Definition in_flight (s : State) : nat :=
  (caller_holding (caller s) + sum_list_with holding (workers s))%nat.

(** A goroutine that has not yet returned into the group. *)
Definition unfinished (w : Worker) : nat :=
  match w with
  | Finished _ _ _ _ => 0
  | _ => 1
  end.

Section Manager.
Context {platform : Platform}.

(** [run], first statement: [proc.sema.Acquire(proc.ctx, 1)]. *)
Definition run_acquire (p : concurrentProcess) (t : Task) (todo : list Task)
    : concurrentProcess * Caller :=
  match Acquire (sema p) 1 with
  | Taken s' => ({| ctx := ctx p; sema := s'; eg := eg p |}, Acquired t todo)
  | Doomed => (p, AcquireDoomed t todo)
  | Queued => (p, AcquireWait t todo)
  end.

(** [run], second statement: [proc.eg.Go(func() error { ... })]. *)
Definition run_go (s : State) (t : Task) (todo : list Task) : State :=
  {| proc := {| ctx := ctx (proc s); sema := sema (proc s);
                eg := Group_add (eg (proc s)) |};
     caller := Submitting todo;
     workers := workers s ++ [Started t];
     crashed := crashed s |}.

(** [wait]: [proc.eg.Wait()]. *)
Definition wait (p : concurrentProcess) : option (option error) :=
  Group_Wait (eg p).

(** One step of the calling goroutine. *)
Definition step_caller (s : State) : option State :=
  match caller s with
  | Submitting [] =>
      match wait (proc s) with
      | Some r => Some {| proc := proc s; caller := Joined r;
                          workers := workers s; crashed := crashed s |}
      | None => None
      end
  | Submitting (t :: todo) =>
      let '(p', c') := run_acquire (proc s) t todo in
      Some {| proc := p'; caller := c';
              workers := workers s; crashed := crashed s |}
  | Acquired t todo => Some (run_go s t todo)
  | AcquireWait _ _ => None
  | AcquireDoomed _ _ => None
  | Joined _ => None
  end.

(** [notifyWaiters], run by [Release]: the queued caller, if any, gets
    its slot as soon as one is free. *)
Definition notifyWaiters (s : Weighted) (c : Caller) : Weighted * Caller :=
  match c with
  | AcquireWait t todo =>
      if size s - cur s <? 1 then (s, c)
      else ({| size := size s; cur := cur s + 1 |}, Acquired t todo)
  | _ => (s, c)
  end.

(** One step of the [i]-th goroutine started by [run].  A goroutine whose
    [runProcessWithStdin] never returns has no step, and keeps its slot. *)
Definition step_worker (i : nat) (s : State) : option State :=
  match workers s !! i with
  | Some (Started t) =>
      match runProcessWithStdin (world t) (exe t) (args t) (stdin t) with
      | Some (stdout, e) =>
          Some {| proc := proc s; caller := caller s;
                  workers := <[i := Ran t stdout e]> (workers s);
                  crashed := crashed s |}
      | None => None
      end
  | Some (Ran t stdout e) =>
      match Release (sema (proc s)) 1 with
      | Panic msg =>
          Some {| proc := proc s; caller := caller s;
                  workers := workers s; crashed := Some msg |}
      | Return sem =>
          let '(sem', c') := notifyWaiters sem (caller s) in
          Some {| proc := {| ctx := ctx (proc s); sema := sem'; eg := eg (proc s) |};
                  caller := c';
                  workers := <[i := Released t stdout e]> (workers s);
                  crashed := crashed s |}
      end
  | Some (Released t stdout e) =>
      Some {| proc := proc s; caller := caller s;
              workers := <[i := CallbackReturned t stdout e (callback t stdout e)]> (workers s);
              crashed := crashed s |}
  | Some (CallbackReturned t stdout e r) =>
      Some {| proc := {| ctx := ctx (proc s); sema := sema (proc s);
                         eg := Group_done (eg (proc s)) r |};
              caller := caller s;
              workers := <[i := Finished t stdout e r]> (workers s);
              crashed := crashed s |}
  | Some (Finished _ _ _ _) => None
  | None => None
  end.

(** The scheduler picks any goroutine that can move; a panic stops the
    program. *)
Definition step (s s' : State) : Prop :=
  crashed s = None ∧
  (step_caller s = Some s' ∨ ∃ i, step_worker i s = Some s').

(** A run of the program under a given schedule: [None] schedules the
    caller, [Some i] the [i]-th goroutine. *)
Definition step_thread (th : option nat) (s : State) : option State :=
  match crashed s with
  | Some _ => None
  | None =>
      match th with
      | None => step_caller s
      | Some i => step_worker i s
      end
  end.

Fixpoint schedule (ths : list (option nat)) (s : State) : option State :=
  match ths with
  | [] => Some s
  | th :: ths' =>
      match step_thread th s with
      | Some s' => schedule ths' s'
      | None => None
      end
  end.

(** What the callback of [t] is called with, and what it answers; a
    callback that is never called answers nothing. *)
Definition result_of (t : Task) : option (bytes * option error) :=
  runProcessWithStdin (world t) (exe t) (args t) (stdin t).

Definition callback_result (t : Task) : option error :=
  match result_of t with
  | Some (stdout, e) => callback t stdout e
  | None => None
  end.

(** *** What the proofs keep track of *)

(** A goroutine whose callback returned a non-nil error into the
    group. *)
Definition failures (w : Worker) : nat :=
  match w with
  | Finished _ _ _ (Some _) => 1
  | _ => 0
  end.

(** The arguments the callback of a goroutine was called with, once it
    was called. *)
Definition callback_args (w : Worker) : option (bytes * option error) :=
  match w with
  | CallbackReturned _ stdout e _ | Finished _ stdout e _ => Some (stdout, e)
  | _ => None
  end.

(** The values a goroutine carries are the ones its task computes. *)
Definition worker_ok (w : Worker) : Prop :=
  match w with
  | Started _ => True
  | Ran t stdout e | Released t stdout e => Some (stdout, e) = result_of t
  | CallbackReturned t stdout e r | Finished t stdout e r =>
      Some (stdout, e) = result_of t ∧ r = callback_result t
  end.

(** Steps a goroutine, and the caller, still have to take at most. *)
Definition worker_weight (w : Worker) : nat :=
  match w with
  | Started _ => 4
  | Ran _ _ _ => 3
  | Released _ _ _ => 2
  | CallbackReturned _ _ _ _ => 1
  | Finished _ _ _ _ => 0
  end.

Definition caller_weight (c : Caller) : nat :=
  match c with
  | Submitting todo => 6 * length todo + 1
  | AcquireWait _ todo | AcquireDoomed _ todo | Acquired _ todo =>
      6 * length todo + 6
  | Joined _ => 0
  end.

Definition weight (s : State) : nat :=
  match crashed s with
  | Some _ => 0
  | None =>
      S (caller_weight (caller s) + sum_list_with worker_weight (workers s))
  end.

(** The invariant of a manager with [N] slots that was given [tasks]. *)
Record inv (N : Z) (tasks : list Task) (s : State) : Prop := {
  inv_crashed : crashed s = None;
  inv_size : size (sema (proc s)) = N;
  inv_cur : cur (sema (proc s)) = Z.of_nat (in_flight s);
  inv_bound : cur (sema (proc s)) = 0 ∨ cur (sema (proc s)) ≤ N;
  inv_wait : ∀ t todo, caller s = AcquireWait t todo →
               1 ≤ N ∧ N ≤ cur (sema (proc s));
  inv_doomed : ∀ t todo, caller s = AcquireDoomed t todo →
               N < 1 ∧ workers s = [] ∧ tasks = t :: todo;
  inv_closed : N < 1 → workers s = [];
  inv_wg : wg (eg (proc s)) = Z.of_nat (sum_list_with unfinished (workers s));
  inv_err : err (eg (proc s)) = None ↔ sum_list_with failures (workers s) = 0%nat;
  inv_tasks : tasks = (task_of <$> workers s) ++ pending (caller s);
  inv_workers : Forall worker_ok (workers s);
  inv_joined : ∀ r, caller s = Joined r →
                 r = err (eg (proc s)) ∧ wg (eg (proc s)) = 0
}.

End Manager.

(** The process of [t] was started, ran and exited with status 0:
    [cmd.Output] returned a nil error. *)
Definition exits_zero (t : Task) : Prop :=
  StdinPipe (world t) = None ∧ WriteString (world t) = WriteReturns None
  ∧ (Output (world t)).2 = None.

(** The input of [t] fits into the pipe: the write of line 39 returns. *)
Definition stdin_write_returns (t : Task) : Prop :=
  ∃ err, WriteString (world t) = WriteReturns err.

(** ** Concrete data for the examples

    The example platform quotes without escaping and prints a signal by
    its number; the examples use it on printable text only. *)

Definition ok_world : ProcessWorld :=
  {| StdinPipe := None; WriteString := WriteReturns None;
     Output := (Some [Byte.x6f; Byte.x6b], None) |}.

Definition findings_world : ProcessWorld :=
  {| StdinPipe := None; WriteString := WriteReturns None;
     Output := (Some [Byte.x7b; Byte.x7d],
                Some (ExitError (Exited 1) (Some []))) |}.

Definition silent_failure_world : ProcessWorld :=
  {| StdinPipe := None; WriteString := WriteReturns None;
     Output := (Some [], Some (ExitError (Exited 2) (Some [Byte.x6e; Byte.x6f]))) |}.

Definition killed_world : ProcessWorld :=
  {| StdinPipe := None; WriteString := WriteReturns None;
     Output := (Some [Byte.x6f; Byte.x6b],
                Some (ExitError (Signaled 9) (Some [Byte.x6e; Byte.x6f]))) |}.


Definition not_started_world : ProcessWorld :=
  {| StdinPipe := None; WriteString := WriteReturns None;
     Output := (None, Some (OSError "exec: no such file or directory")) |}.

(** Three callbacks: one hands the runner's error on, one always
    complains, one never does. *)
Definition hand_on (stdout : bytes) (e : option error) : option error := e.

Definition complain (stdout : bytes) (e : option error) : option error :=
  Some (errorString "linter output rejected").

Definition quiet (stdout : bytes) (e : option error) : option error := None.

Definition shellcheck (cb : bytes → option error → option error)
    (w : ProcessWorld) : Task :=
  {| exe := "shellcheck"; args := ["-"]; stdin := "echo hello";
     callback := cb; world := w |}.

Definition manager (par : Z) : concurrentProcess :=
  {| ctx := Background; sema := NewWeighted par; eg := Group_zero |}.

(** One slot, two tasks, each goroutine run to its end as soon as it
    exists; the caller queues for the second slot in between. *)
Definition one_by_one : list (option nat) :=
  [None; None; None; Some 0; Some 0; Some 0; Some 0;
   None; Some 1; Some 1; Some 1; Some 1; None]%nat.

Definition ascii_quote (l : list byte) : string :=
  String "034" (String.string_of_list_ascii (map ascii_of_byte l))
    +:+ String "034" EmptyString.

Definition example_platform : Platform := {|
  quote := ascii_quote;
  ProcessState_String ps :=
    match ps with
    | Exited n => "exit status " +:+ itoa (Z.of_N n)
    | Signaled n => "signal: " +:+ itoa (Z.of_N n)
    | NoStatus => ""
    end
|}.

(** * Properties of runProcessWithStdin *)

Section RunnerProperties.
Context {platform : Platform}.

Lemma append_nil_r (s : string) : s +:+ EmptyString = s.
Proof.
  induction s as [|c s IH]; [reflexivity|]. exact (f_equal (String c) IH).
Qed.

Lemma append_assoc (s1 s2 s3 : string) :
  (s1 +:+ s2) +:+ s3 = s1 +:+ s2 +:+ s3.
Proof.
  induction s1 as [|c s1 IH]; [reflexivity|]. exact (f_equal (String c) IH).
Qed.

Lemma Sprintf_terminated (exe : string) (Stderr : bytes) :
  Sprintf "%s was terminated. stderr: %q" [arg_string exe; arg_bytes Stderr]
  = exe +:+ " was terminated. stderr: " +:+ quote (contents Stderr).
Proof.
  rewrite <- (append_nil_r (quote (contents Stderr))). reflexivity.
Qed.

Lemma Sprintf_exited (exe : string) (code : Z) (Stderr : bytes) :
  Sprintf "%s exited with status %d but stdout was empty. stderr: %q"
          [arg_string exe; arg_int code; arg_bytes Stderr]
  = exe +:+ " exited with status " +:+ itoa code
        +:+ " but stdout was empty. stderr: " +:+ quote (contents Stderr).
Proof.
  rewrite <- (append_nil_r (quote (contents Stderr))). reflexivity.
Qed.

Lemma includes_middle (pre part post : string) :
  includes part (pre +:+ part +:+ post).
Proof. by exists pre, post. Qed.

Lemma includes_end (pre part : string) : includes part (pre +:+ part).
Proof. exists pre, EmptyString. by rewrite append_nil_r. Qed.

(** Every return statement that carries an error carries a nil slice. *)
Lemma runProcessWithStdin_error_no_output (w : ProcessWorld)
    (exe : string) (args : list string) (stdin : string)
    (stdout : bytes) (e : option error) :
  runProcessWithStdin w exe args stdin = Some (stdout, e) →
  e ≠ None →
  stdout = None.
Proof.
  unfold runProcessWithStdin.
  destruct (StdinPipe w); [by intros [= <- <-]|].
  destruct (WriteString w) as [|[e2|]]; [done|by intros [= <- <-]|].
  destruct (Output w) as [out [[ps Stderr| | |]|]];
    try by intros [= <- <-].
  cbn. destruct (ExitCode ps <? 0); [by intros [= <- <-]|].
  destruct (len out =? 0); by intros [= <- <-].
Qed.

(** C1: when the process exits with a non-zero status and printed
    something, [runProcessWithStdin] returns what it printed and a nil
    error.  (An exit status is unsigned; a process that did not exit has
    no status, and its [ExitCode] is -1.) *)
Theorem findings_reported_is_success (w : ProcessWorld)
    (exe : string) (args : list string) (stdin : string)
    (stdout Stderr : bytes) (status : N) :
  StdinPipe w = None →
  WriteString w = WriteReturns None →
  Output w = (stdout, Some (ExitError (Exited status) Stderr)) →
  status ≠ 0%N →
  len stdout ≠ 0 →
  runProcessWithStdin w exe args stdin = Some (stdout, None).
Proof.
  intros Hpipe Hwrite Hout Hstatus Hlen.
  unfold runProcessWithStdin. rewrite Hpipe, Hwrite, Hout. cbn.
  destruct (Z.ltb_spec (Z.of_N status) 0) as [Hneg|_]; [lia|].
  destruct (Z.eqb_spec (len stdout) 0) as [Hz|_]; [done|reflexivity].
Qed.

(** C2, as the code has it: when [cmd.Output] fails with an error that
    is not an [ExitError], [runProcessWithStdin] returns that very error
    value, not wrapped in anything, and a nil slice. *)
Theorem wait_failure_returned_as_is (w : ProcessWorld)
    (exe : string) (args : list string) (stdin : string)
    (stdout : bytes) (cause : error) :
  StdinPipe w = None →
  WriteString w = WriteReturns None →
  Output w = (stdout, Some cause) →
  (∀ ps Stderr, cause ≠ ExitError ps Stderr) →
  runProcessWithStdin w exe args stdin = Some (None, Some cause).
Proof.
  intros Hpipe Hwrite Hout Hcause.
  unfold runProcessWithStdin. rewrite Hpipe, Hwrite, Hout.
  destruct cause as [ps Stderr| | |]; try reflexivity.
  by destruct (Hcause ps Stderr).
Qed.

(** C4: when the process exits with a non-zero, non-negative status and
    printed nothing, [runProcessWithStdin] returns a nil slice and the
    line-53 error, whose message shows the status (in decimal) and the
    captured stderr (as [%q] quotes it). *)
Theorem nonzero_exit_without_output (w : ProcessWorld)
    (exe : string) (args : list string) (stdin : string)
    (stdout Stderr : bytes) (ps : ProcessState) :
  StdinPipe w = None →
  WriteString w = WriteReturns None →
  Output w = (stdout, Some (ExitError ps Stderr)) →
  0 ≤ ExitCode ps →
  ExitCode ps ≠ 0 →
  len stdout = 0 →
  ∃ e, runProcessWithStdin w exe args stdin = Some (None, Some e)
       ∧ TerminatedAbnormally exe e
       ∧ includes (itoa (ExitCode ps)) (Error e)
       ∧ includes (quote (contents Stderr)) (Error e).
Proof.
  intros Hpipe Hwrite Hout Hcode _ Hlen.
  eexists. split.
  { unfold runProcessWithStdin. rewrite Hpipe, Hwrite, Hout. cbn.
    destruct (Z.ltb_spec (ExitCode ps) 0) as [Hneg|_]; [lia|].
    rewrite Hlen. reflexivity. }
  split; [apply exited_without_output|].
  change (Error (Errorf _ _)) with
    (Sprintf "%s exited with status %d but stdout was empty. stderr: %q"
       [arg_string exe; arg_int (ExitCode ps); arg_bytes Stderr]).
  rewrite Sprintf_exited. split.
  - rewrite <- append_assoc. apply includes_middle.
  - rewrite <- !append_assoc. apply includes_end.
Qed.

(** C5: when the process was ended by a signal, or its exit code is
    otherwise negative, [runProcessWithStdin] returns a nil slice and the
    line-50 error, whose message shows the captured stderr (as [%q]
    quotes it), whatever was captured on stdout. *)
Theorem process_terminated (w : ProcessWorld)
    (exe : string) (args : list string) (stdin : string)
    (stdout Stderr : bytes) (ps : ProcessState) :
  StdinPipe w = None →
  WriteString w = WriteReturns None →
  Output w = (stdout, Some (ExitError ps Stderr)) →
  ExitCode ps < 0 →
  ∃ e, runProcessWithStdin w exe args stdin = Some (None, Some e)
       ∧ TerminatedAbnormally exe e
       ∧ includes (quote (contents Stderr)) (Error e).
Proof.
  intros Hpipe Hwrite Hout Hcode.
  eexists. split.
  { unfold runProcessWithStdin. rewrite Hpipe, Hwrite, Hout. cbn.
    destruct (Z.ltb_spec (ExitCode ps) 0) as [_|Hpos]; [reflexivity|lia]. }
  split; [apply was_terminated|].
  change (Error (Errorf _ _)) with
    (Sprintf "%s was terminated. stderr: %q"
       [arg_string exe; arg_bytes Stderr]).
  rewrite Sprintf_terminated, <- append_assoc. apply includes_end.
Qed.

End RunnerProperties.

(** * Properties of the manager *)

Section ManagerProperties.
Context {platform : Platform}.

Lemma sum_list_with_insert {A : Type} (f : A → nat) (l : list A)
    (i : nat) (x y : A) :
  l !! i = Some x →
  (sum_list_with f (<[i := y]> l) + f x = sum_list_with f l + f y)%nat.
Proof.
  revert i. induction l as [|a l IH]; intros [|i] Hi; simplify_eq/=; [lia|].
  specialize (IH _ Hi). lia.
Qed.

Lemma sum_list_with_pos {A : Type} (f : A → nat) (l : list A) :
  (0 < sum_list_with f l)%nat → ∃ i x, l !! i = Some x ∧ (0 < f x)%nat.
Proof.
  induction l as [|a l IH]; simpl; [lia|]. intros Hpos.
  destruct (f a) as [|n] eqn:Hfa.
  - destruct (IH Hpos) as (i & x & Hi & Hx). by exists (S i), x.
  - exists 0%nat, a. split; [done|lia].
Qed.

Lemma sum_list_with_zero {A : Type} (f : A → nat) (l : list A) :
  sum_list_with f l = 0%nat ↔ Forall (λ x, f x = 0%nat) l.
Proof.
  induction l as [|a l IH]; simpl.
  - split; [constructor|done].
  - rewrite Forall_cons, <- IH. lia.
Qed.

Lemma fmap_task_of_insert (l : list Worker) (i : nat) (x y : Worker) :
  l !! i = Some x → task_of y = task_of x →
  task_of <$> <[i := y]> l = task_of <$> l.
Proof.
  intros Hi Ht. rewrite list_fmap_insert, Ht.
  apply list_insert_id. by rewrite list_lookup_fmap, Hi.
Qed.

Lemma schedule_rtc (ths : list (option nat)) (s s' : State) :
  schedule ths s = Some s' → rtc step s s'.
Proof.
  revert s. induction ths as [|th ths IH]; intros s Hs; simplify_eq/=.
  { apply rtc_refl. }
  destruct (step_thread th s) as [s1|] eqn:Hth; [|done].
  eapply rtc_l; [|by apply IH].
  unfold step_thread in Hth. destruct (crashed s) eqn:Hc; [done|].
  split; [done|]. destruct th as [i|]; eauto.
Qed.

Lemma inv_init (N : Z) (tasks : list Task) (p : concurrentProcess) :
  newConcurrentProcess N = Return p → inv N tasks (init p tasks).
Proof.
  intros [= <-]. split; simpl; try done.
  - by left.
Qed.

Lemma inv_step_caller (N : Z) (tasks : list Task) (s s' : State) :
  inv N tasks s → step_caller s = Some s' → inv N tasks s'.
Proof.
  intros [Hcr Hsz Hcur Hbd Hwait Hdoom Hclosed Hwg Herr Htasks Hws Hj] Hstep.
  unfold step_caller in Hstep. unfold in_flight in *.
  destruct (caller s) as [[|t todo]| | | |] eqn:Hc; simpl in *; try done.
  - (* wait *)
    unfold wait, Group_Wait in Hstep.
    destruct (Z.eqb_spec (wg (eg (proc s))) 0) as [Hw0|]; [|done].
    injection Hstep as <-.
    split; simpl; try done. by intros r [= <-].
  - (* Acquire *)
    unfold run_acquire, Acquire in Hstep.
    rewrite Z.geb_leb, Z.gtb_ltb in Hstep.
    destruct (Z.leb_spec 1 (size (sema (proc s)) - cur (sema (proc s))));
      [|destruct (Z.ltb_spec (size (sema (proc s))) 1)];
      injection Hstep as <-; split; simpl; try done; try lia.
    + unfold in_flight; simpl. lia.
    + intros t0 todo0 [= <- <-]. split; [lia|].
      split; [by apply Hclosed; lia|].
      rewrite Htasks, Hclosed by lia. done.
  - (* eg.Go *)
    injection Hstep as <-. unfold run_go.
    split; simpl; try done.
    all: unfold in_flight, Group_add; simpl.
    all: rewrite ?sum_list_with_app; simpl; try lia.
    + by rewrite Nat.add_0_r.
    + by rewrite fmap_app, <- app_assoc.
    + apply Forall_app. split; [done|]. by repeat constructor.
Qed.

Lemma inv_step_worker (N : Z) (tasks : list Task) (s s' : State) (i : nat) :
  inv N tasks s → step_worker i s = Some s' → inv N tasks s'.
Proof.
  intros [Hcr Hsz Hcur Hbd Hwait Hdoom Hclosed Hwg Herr Htasks Hws Hj] Hstep.
  unfold step_worker in Hstep. unfold in_flight in *.
  destruct (workers s !! i) as [w|] eqn:Hi; [|done].
  assert (Hne : workers s ≠ []) by (by intros Hnil; rewrite Hnil in Hi).
  pose proof (λ y, sum_list_with_insert holding _ _ _ y Hi) as Hhold.
  pose proof (λ y, sum_list_with_insert unfinished _ _ _ y Hi) as Hunf.
  pose proof (λ y, sum_list_with_insert failures _ _ _ y Hi) as Hfail.
  pose proof (λ y, fmap_task_of_insert _ _ _ y Hi) as Htask.
  pose proof (Forall_lookup_1 _ _ _ _ Hws Hi) as Hok.
  destruct w as [t|t o e|t o e|t o e r|t o e r]; simpl in *; [| | | |done].
  - (* runProcessWithStdin *)
    destruct (runProcessWithStdin _ _ _ _) as [[o e]|] eqn:Hrun; [|done].
    injection Hstep as <-.
    specialize (Hhold (Ran t o e)). specialize (Hunf (Ran t o e)).
    specialize (Hfail (Ran t o e)). specialize (Htask (Ran t o e)).
    split; simpl; try done; unfold in_flight; simpl in *; try lia.
    + intros t0 todo Hd. by destruct (Hdoom _ _ Hd) as (_ & ? & _).
    + intros Hn. by destruct Hne; apply Hclosed.
    + rewrite Herr. lia.
    + by rewrite Htask.
    + apply Forall_insert; [done|]. simpl. unfold result_of. by rewrite Hrun.
  - (* sema.Release *)
    specialize (Hhold (Released t o e)). specialize (Hunf (Released t o e)).
    specialize (Hfail (Released t o e)). specialize (Htask (Released t o e)).
    unfold Release in Hstep; simpl in *.
    destruct (Z.ltb_spec (cur (sema (proc s)) - 1) 0) as [Hneg|Hpos]; [lia|].
    unfold notifyWaiters in Hstep; simpl in Hstep.
    destruct (caller s) as [todo|t1 todo|t1 todo|t1 todo|r1] eqn:Hc;
      [| destruct (Z.ltb_spec (size (sema (proc s)) - (cur (sema (proc s)) - 1)) 1) | | |].
    all: injection Hstep as <-.
    all: split; simpl; try done; unfold in_flight; simpl in *; try lia.
    all: try (rewrite Herr; lia).
    all: try (by rewrite Htask).
    all: try (by apply Forall_insert).
    intros t0 todo0 Hd. by destruct (Hdoom _ _ Hd) as (_ & ? & _).
  - (* callback *)
    injection Hstep as <-.
    specialize (Hhold (CallbackReturned t o e (callback t o e))).
    specialize (Hunf (CallbackReturned t o e (callback t o e))).
    specialize (Hfail (CallbackReturned t o e (callback t o e))).
    specialize (Htask (CallbackReturned t o e (callback t o e))).
    split; simpl; try done; unfold in_flight; simpl in *; try lia.
    + intros t0 todo Hd. by destruct (Hdoom _ _ Hd) as (_ & ? & _).
    + intros Hn. by destruct Hne; apply Hclosed.
    + rewrite Herr. lia.
    + by rewrite Htask.
    + apply Forall_insert; [done|]. simpl. split; [done|].
      unfold callback_result. by rewrite <- Hok.
  - (* return into the group *)
    injection Hstep as <-. destruct Hok as [Hres Hr].
    specialize (Hhold (Finished t o e r)). specialize (Hunf (Finished t o e r)).
    specialize (Hfail (Finished t o e r)). specialize (Htask (Finished t o e r)).
    split; simpl; try done; unfold in_flight; simpl in *; try lia.
    + intros t0 todo Hd. by destruct (Hdoom _ _ Hd) as (_ & ? & _).
    + intros Hn. by destruct Hne; apply Hclosed.
    + destruct (err (eg (proc s))) as [e0|].
      * assert (sum_list_with failures (workers s) ≠ 0%nat)
          by (intros Hz; by apply Herr in Hz).
        split; [done|]. destruct r; lia.
      * assert (sum_list_with failures (workers s) = 0%nat) by by apply Herr.
        destruct r; split; intros Hx; try done; lia.
    + by rewrite Htask.
    + by apply Forall_insert.
    + intros r0 Hr0. destruct (Hj _ Hr0) as [_ Hw0]. lia.
Qed.

Lemma inv_step (N : Z) (tasks : list Task) (s s' : State) :
  inv N tasks s → step s s' → inv N tasks s'.
Proof.
  intros Hinv [_ [Hc|[i Hw]]];
    eauto using inv_step_caller, inv_step_worker.
Qed.

Lemma inv_reachable (N : Z) (tasks : list Task) (p : concurrentProcess)
    (s : State) :
  newConcurrentProcess N = Return p →
  rtc step (init p tasks) s → inv N tasks s.
Proof.
  intros Hp Hrtc. apply inv_init with (tasks := tasks) in Hp.
  induction Hrtc; eauto using inv_step.
Qed.

(** Every step uses up some of the weight, so runs are finite. *)
Lemma step_weight (s s' : State) : step s s' → (weight s' < weight s)%nat.
Proof.
  intros [Hcr [Hstep|[i Hstep]]]; unfold weight; rewrite Hcr.
  - unfold step_caller in Hstep.
    destruct (caller s) as [[|t todo]| | | |] eqn:Hc; try done.
    + destruct (wait (proc s)); [|done]. injection Hstep as <-.
      simpl. rewrite Hcr. simpl. lia.
    + unfold run_acquire in Hstep.
      destruct (Acquire _ _); injection Hstep as <-;
        simpl; rewrite Hcr; simpl; lia.
    + injection Hstep as <-. simpl. rewrite Hcr, sum_list_with_app. simpl. lia.
  - unfold step_worker in Hstep.
    destruct (workers s !! i) as [w|] eqn:Hi; [|done].
    pose proof (λ y, sum_list_with_insert worker_weight _ _ _ y Hi) as Hw.
    destruct w as [t|t o e|t o e|t o e r|t o e r]; simpl in *; [| | | |done].
    + destruct (runProcessWithStdin _ _ _ _) as [[o e]|]; [|done].
      injection Hstep as <-. specialize (Hw (Ran t o e)).
      simpl in *. rewrite Hcr. lia.
    + destruct (Release _ _) as [sem|msg].
      * destruct (notifyWaiters sem (caller s)) as [sem' c'] eqn:Hn.
        injection Hstep as <-. specialize (Hw (Released t o e)).
        simpl in *. rewrite Hcr.
        assert (caller_weight c' = caller_weight (caller s)) as ->; [|lia].
        unfold notifyWaiters in Hn.
        destruct (caller s); try (by injection Hn as <- <-).
        by destruct (_ <? _); injection Hn as <- <-.
      * injection Hstep as <-. simpl. lia.
    + injection Hstep as <-.
      specialize (Hw (CallbackReturned t o e (callback t o e))).
      simpl in *. rewrite Hcr. lia.
    + injection Hstep as <-. specialize (Hw (Finished t o e r)).
      simpl in *. rewrite Hcr. lia.
Qed.

Lemma nsteps_weight (n : nat) (s s' : State) :
  nsteps step n s s' → (n + weight s' ≤ weight s)%nat.
Proof.
  induction 1 as [|n s1 s2 s3 Hstep _ IH]; [lia|].
  apply step_weight in Hstep. lia.
Qed.

Lemma write_returns_result (t : Task) :
  stdin_write_returns t → is_Some (result_of t).
Proof.
  intros [e He]. unfold result_of, runProcessWithStdin. rewrite He.
  destruct (StdinPipe (world t)); [done|]. destruct e; [done|].
  destruct (Output (world t)) as [stdout [[ps Stderr| | |]|]]; try done.
  cbn. destruct (ExitCode ps <? 0); [done|]. by destruct (len stdout =? 0).
Qed.

Lemma worker_task_submitted (tasks : list Task) (s : State)
    (i : nat) (w : Worker) :
  tasks = (task_of <$> workers s) ++ pending (caller s) →
  workers s !! i = Some w → task_of w ∈ tasks.
Proof.
  intros -> Hi. apply elem_of_app. left.
  apply (list_elem_of_lookup_2 _ i). by rewrite list_lookup_fmap, Hi.
Qed.

(** With at least one slot, and every input written, the program never
    gets stuck before [wait] has returned. *)
Lemma progress (N : Z) (tasks : list Task) (s : State) :
  1 ≤ N → (∀ t, t ∈ tasks → stdin_write_returns t) →
  inv N tasks s → nf step s → ∃ r, caller s = Joined r.
Proof.
  intros HN Hwr [Hcr Hsz Hcur Hbd Hwait Hdoom Hclosed Hwg Herr Htasks Hws Hj] Hnf.
  assert (Hworker : ∀ i w, workers s !! i = Some w →
                      (0 < unfinished w)%nat → False).
  { intros i w Hi Hw. apply Hnf.
    assert (is_Some (step_worker i s)) as [s' Hs']; [|by exists s'; split; eauto].
    pose proof (worker_task_submitted tasks s i w Htasks Hi) as Hin.
    apply Hwr, write_returns_result in Hin as [[o e] Hres].
    unfold step_worker. rewrite Hi.
    destruct w; simpl in *; try done; try lia.
    - unfold result_of in Hres. by rewrite Hres.
    - destruct (Release _ _); [|done]. by destruct (notifyWaiters _ _). }
  assert (Hcaller : ∀ s', step_caller s = Some s' → False).
  { intros s' Hs'. apply Hnf. exists s'. split; eauto. }
  unfold in_flight in Hcur.
  destruct (caller s) as [[|t todo]|t todo|t todo|t todo|r] eqn:Hc.
  - destruct (decide (wg (eg (proc s)) = 0)) as [Hz|Hnz].
    + exfalso. unfold step_caller in Hcaller. rewrite Hc in Hcaller.
      unfold wait, Group_Wait in Hcaller. rewrite Hz in Hcaller.
      eapply Hcaller. reflexivity.
    + destruct (sum_list_with_pos unfinished (workers s)) as (i & w & Hi & Hw);
        [lia|]. by destruct (Hworker i w).
  - exfalso. unfold step_caller in Hcaller. rewrite Hc in Hcaller.
    destruct (run_acquire (proc s) t todo). eapply Hcaller. reflexivity.
  - destruct (Hwait t todo eq_refl) as [_ Hfull]. simpl in Hcur.
    destruct (sum_list_with_pos holding (workers s)) as (i & w & Hi & Hw);
      [lia|]. destruct (Hworker i w); [done|]. destruct w; simpl in *; lia.
  - destruct (Hdoom t todo eq_refl) as [? _]. lia.
  - exfalso. unfold step_caller in Hcaller. rewrite Hc in Hcaller.
    eapply Hcaller. reflexivity.
  - by exists r.
Qed.

(** What [wait] returns is nil exactly when no callback complained. *)
Lemma joined_result (N : Z) (tasks : list Task) (p : concurrentProcess)
    (s : State) (r : option error) :
  newConcurrentProcess N = Return p →
  rtc step (init p tasks) s →
  caller s = Joined r →
  r = None ↔ Forall (λ t, callback_result t = None) tasks.
Proof.
  intros Hp Hs Hj.
  destruct (inv_reachable N tasks p s Hp Hs)
    as [_ _ _ _ _ _ _ Hwg Herr Htasks Hws Hjoin].
  destruct (Hjoin r Hj) as [-> Hz].
  rewrite Hj, app_nil_r in Htasks. subst tasks.
  assert (Hfin : sum_list_with unfinished (workers s) = 0%nat) by lia.
  apply sum_list_with_zero in Hfin.
  rewrite Herr, sum_list_with_zero, Forall_fmap.
  assert (Hw : ∀ j w, workers s !! j = Some w →
                 failures w = 0%nat ↔ callback_result (task_of w) = None).
  { intros j w Hjw.
    pose proof (Forall_lookup_1 _ _ _ _ Hfin Hjw) as Hw0.
    pose proof (Forall_lookup_1 _ _ _ _ Hws Hjw) as Hok.
    destruct w as [| | | |t o e r']; try done.
    destruct Hok as [_ ->]. simpl. by destruct (callback_result t). }
  split; intros HF; apply Forall_lookup; intros j w Hjw;
    apply (Hw j w Hjw); apply (Forall_lookup_1 _ _ _ _ HF Hjw).
Qed.

(** With at least one slot, and every input written, every run that
    cannot go on has [wait] returned. *)
Lemma wait_returns (N : Z) (tasks : list Task) (p : concurrentProcess)
    (s : State) :
  1 ≤ N →
  (∀ t, t ∈ tasks → stdin_write_returns t) →
  newConcurrentProcess N = Return p →
  rtc step (init p tasks) s →
  nf step s →
  ∃ r, caller s = Joined r.
Proof. eauto using progress, inv_reachable. Qed.

Lemma runs_are_bounded (p : concurrentProcess) (tasks : list Task)
    (n : nat) (s : State) :
  nsteps step n (init p tasks) s → (n ≤ 6 * length tasks + 2)%nat.
Proof.
  intros Hn. apply nsteps_weight in Hn. unfold weight in Hn at 2.
  simpl in Hn. lia.
Qed.

End ManagerProperties.

(** * The claims about the manager *)

Section ManagerClaims.
Context {platform : Platform}.

(** C7: with [N ≥ 1] slots and any list of submitted tasks, no reachable
    state has more than [N] tasks between the return of [Acquire] and the
    call of [Release]. *)
Theorem in_flight_bounded (N : Z) (tasks : list Task)
    (p : concurrentProcess) (s : State) :
  1 ≤ N →
  newConcurrentProcess N = Return p →
  rtc step (init p tasks) s →
  Z.of_nat (in_flight s) ≤ N.
Proof.
  intros HN Hp Hs. destruct (inv_reachable N tasks p s Hp Hs).
  lia.
Qed.

(** C8: in every state in which [wait] has returned, each submitted task
    has its goroutine, and that goroutine is over with its callback
    called and returned; whether the group already holds an error plays
    no part. *)
Theorem wait_returns_after_all_callbacks (N : Z) (tasks : list Task)
    (p : concurrentProcess) (s : State) (r : option error)
    (i : nat) (t : Task) :
  newConcurrentProcess N = Return p →
  rtc step (init p tasks) s →
  caller s = Joined r →
  tasks !! i = Some t →
  ∃ stdout e, workers s !! i = Some (Finished t stdout e (callback t stdout e)).
Proof.
  intros Hp Hs Hj Ht.
  destruct (inv_reachable N tasks p s Hp Hs)
    as [_ _ _ _ _ _ _ Hwg _ Htasks Hws Hjoin].
  destruct (Hjoin r Hj) as [_ Hz].
  rewrite Hj, app_nil_r in Htasks. subst tasks.
  apply list_lookup_fmap_Some in Ht as (w & -> & Hw).
  assert (Hfin : sum_list_with unfinished (workers s) = 0%nat) by lia.
  apply sum_list_with_zero in Hfin.
  pose proof (Forall_lookup_1 _ _ _ _ Hfin Hw) as Hw0.
  pose proof (Forall_lookup_1 _ _ _ _ Hws Hw) as Hok.
  destruct w as [| | | |t o e r']; try done.
  destruct Hok as [Hres ->]. exists o, e. rewrite Hw. simpl.
  unfold callback_result. by rewrite <- Hres.
Qed.

(** C9: if the callback of some submitted task answers a non-nil
    error, then [wait] returns a non-nil error: in whatever state it has
    returned; and it does return when there is at least one slot and the
    input of every task gets written into its pipe -- then every run
    ends with [wait] returned.  No run is longer than
    [6 * length tasks + 2] steps. *)
Theorem callback_error_reaches_wait (N : Z) (tasks : list Task)
    (p : concurrentProcess) (t : Task) :
  newConcurrentProcess N = Return p →
  t ∈ tasks →
  callback_result t ≠ None →
  (∀ s r, rtc step (init p tasks) s → caller s = Joined r → r ≠ None)
  ∧ (1 ≤ N → (∀ t', t' ∈ tasks → stdin_write_returns t') →
       ∀ s, rtc step (init p tasks) s → nf step s →
       ∃ e, caller s = Joined (Some e))
  ∧ (∀ n s, nsteps step n (init p tasks) s → (n ≤ 6 * length tasks + 2)%nat).
Proof.
  intros Hp Ht Hcb.
  assert (Hsafe : ∀ s r, rtc step (init p tasks) s →
                    caller s = Joined r → r ≠ None).
  { intros s r Hs Hj Hr.
    apply (joined_result N tasks p s r Hp Hs Hj) in Hr.
    rewrite Forall_forall in Hr. by apply Hcb, Hr. }
  split; [done|]. split; [|eauto using runs_are_bounded].
  intros HN Hwr s Hs Hnf.
  destruct (wait_returns N tasks p s HN Hwr Hp Hs Hnf) as [[e|] Hj]; [eauto|].
  by destruct (Hsafe s None Hs Hj).
Qed.

(** C3, as the code has it: if every submitted task's process exits
    with status 0 and every callback, given the output and a nil error,
    answers nil, then [wait] returns nil: in whatever state it has
    returned, and (with at least one slot) every run ends with [wait]
    returned. *)
Theorem all_exit_zero_wait_nil (N : Z) (tasks : list Task)
    (p : concurrentProcess) :
  newConcurrentProcess N = Return p →
  (∀ t, t ∈ tasks → exits_zero t) →
  (∀ t, t ∈ tasks → callback t (Output (world t)).1 None = None) →
  (∀ s r, rtc step (init p tasks) s → caller s = Joined r → r = None)
  ∧ (1 ≤ N → ∀ s, rtc step (init p tasks) s → nf step s →
       caller s = Joined None).
Proof.
  intros Hp Hzero Hcb.
  assert (Hsafe : ∀ s r, rtc step (init p tasks) s →
                    caller s = Joined r → r = None).
  { intros s r Hs Hj.
    apply (joined_result N tasks p s r Hp Hs Hj).
    apply Forall_forall. intros t Ht.
    destruct (Hzero t Ht) as (Hpipe & Hwrite & Hout).
    specialize (Hcb t Ht).
    unfold callback_result, result_of, runProcessWithStdin.
    rewrite Hpipe, Hwrite.
    destruct (Output (world t)) as [stdout e]. simpl in *. by subst e. }
  split; [done|].
  intros HN s Hs Hnf.
  assert (Hwr : ∀ t, t ∈ tasks → stdin_write_returns t).
  { intros t Ht. destruct (Hzero t Ht) as (_ & Hwrite & _). by eexists. }
  destruct (wait_returns N tasks p s HN Hwr Hp Hs Hnf) as [r Hj].
  by rewrite Hj, (Hsafe s r Hs Hj).
Qed.

(** C6, as the code has it: [newConcurrentProcess] accepts every
    parallelism and returns a manager whose semaphore has that size; when
    the size is zero or negative the first [run] never comes back from
    [Acquire]: no goroutine is ever started, [wait] is never reached, and
    once inside [Acquire] the program cannot move. *)
Theorem newConcurrentProcess_accepts_any (par : Z) :
  ∃ p, newConcurrentProcess par = Return p
       ∧ size (sema p) = par
       ∧ (par ≤ 0 → ∀ t todo s, rtc step (init p (t :: todo)) s →
            workers s = []
            ∧ (caller s = Submitting (t :: todo)
               ∨ caller s = AcquireDoomed t todo ∧ nf step s)).
Proof.
  eexists. split; [reflexivity|]. split; [reflexivity|].
  intros Hpar t todo s Hs.
  destruct (inv_reachable par (t :: todo) _ s eq_refl Hs)
    as [_ _ Hcur Hbd Hwait _ Hclosed _ _ Htasks _ _].
  assert (Hnil : workers s = []) by (apply Hclosed; lia).
  split; [done|]. unfold in_flight in Hcur.
  rewrite Hnil in Htasks, Hcur. simpl in *.
  destruct (caller s) as [todo'|t' todo'|t' todo'|t' todo'|r] eqn:Hc;
    simpl in *; simplify_eq.
  - by left.
  - destruct (Hwait _ _ eq_refl). lia.
  - right. split; [done|]. intros [s' [_ [Hstep|[i Hstep]]]].
    + unfold step_caller in Hstep. by rewrite Hc in Hstep.
    + unfold step_worker in Hstep. by rewrite Hnil in Hstep.
  - lia.
Qed.

(** C10: [runProcessWithStdin] never returns both: whenever the error it
    returns is non-nil the slice it returns is nil; and so in every
    reachable state a callback that was called with a non-nil error was
    called with a nil slice. *)
Theorem output_and_error_exclusive :
  (∀ w exe args stdin stdout e,
     runProcessWithStdin w exe args stdin = Some (stdout, e) →
     e ≠ None → stdout = None)
  ∧ (∀ N tasks p s i w stdout e,
       newConcurrentProcess N = Return p →
       rtc step (init p tasks) s →
       workers s !! i = Some w →
       callback_args w = Some (stdout, e) →
       e ≠ None → stdout = None).
Proof.
  split; [apply runProcessWithStdin_error_no_output|].
  intros N tasks p s i w stdout e Hp Hs Hw Hargs He.
  destruct (inv_reachable N tasks p s Hp Hs)
    as [_ _ _ _ _ _ _ _ _ _ Hws _].
  pose proof (Forall_lookup_1 _ _ _ _ Hws Hw) as Hok.
  destruct w as [| | |t o e' r|t o e' r]; simplify_eq/=;
    destruct Hok as [Hres _]; symmetry in Hres;
    exact (runProcessWithStdin_error_no_output
             (world t) (exe t) (args t) (stdin t) stdout e Hres He).
Qed.

End ManagerClaims.

(** * The claims at concrete inputs *)

Lemma findings_reported_is_success_witness :
  runProcessWithStdin (platform := example_platform)
    findings_world "shellcheck" ["-"] "echo hello"
  = Some (Some [Byte.x7b; Byte.x7d], None).
Proof.
  apply (findings_reported_is_success (platform := example_platform)
           findings_world "shellcheck" ["-"] "echo hello"
           (Some [Byte.x7b; Byte.x7d]) (Some []) 1%N);
    [reflexivity|reflexivity|reflexivity|done|done].
Defined.

(** C2 as stated fails: the error of a process that could not be started
    comes back as it is; it is not a wrapping error around itself. *)
Lemma wait_failure_is_not_wrapped :
  Output not_started_world
    = (None, Some (OSError "exec: no such file or directory"))
  ∧ ¬ ∃ stdout e, runProcessWithStdin (platform := example_platform)
                    not_started_world "shellcheck" ["-"] "echo hello"
                  = Some (stdout, Some e)
                  ∧ Unwrap e = Some (OSError "exec: no such file or directory").
Proof.
  split; [reflexivity|]. intros (stdout & e & He & Hcause).
  vm_compute in He. injection He as <- <-. discriminate Hcause.
Qed.

Lemma wait_failure_returned_as_is_witness :
  runProcessWithStdin (platform := example_platform)
    not_started_world "shellcheck" ["-"] "echo hello"
  = Some (None, Some (OSError "exec: no such file or directory")).
Proof.
  apply (wait_failure_returned_as_is (platform := example_platform)
           not_started_world "shellcheck" ["-"] "echo hello" None
           (OSError "exec: no such file or directory"));
    [reflexivity|reflexivity|reflexivity|done].
Defined.

Lemma nonzero_exit_without_output_witness :
  ∃ e, runProcessWithStdin (platform := example_platform)
         silent_failure_world "shellcheck" ["-"] "echo hello"
       = Some (None, Some e)
       ∧ TerminatedAbnormally (platform := example_platform) "shellcheck" e
       ∧ includes "2" (Error (platform := example_platform) e)
       ∧ includes (ascii_quote [Byte.x6e; Byte.x6f])
                  (Error (platform := example_platform) e).
Proof.
  apply (nonzero_exit_without_output (platform := example_platform)
           silent_failure_world "shellcheck" ["-"] "echo hello"
           (Some []) (Some [Byte.x6e; Byte.x6f]) (Exited 2));
    [reflexivity|reflexivity|reflexivity|done|done|reflexivity].
Defined.

Lemma process_terminated_witness :
  ∃ e, runProcessWithStdin (platform := example_platform)
         killed_world "shellcheck" ["-"] "echo hello" = Some (None, Some e)
       ∧ TerminatedAbnormally (platform := example_platform) "shellcheck" e
       ∧ includes (ascii_quote [Byte.x6e; Byte.x6f])
                  (Error (platform := example_platform) e).
Proof.
  apply (process_terminated (platform := example_platform)
           killed_world "shellcheck" ["-"] "echo hello"
           (Some [Byte.x6f; Byte.x6b]) (Some [Byte.x6e; Byte.x6f]) (Signaled 9));
    [reflexivity|reflexivity|reflexivity|done].
Defined.

(** C3 as stated fails: one task whose process exits with status 0 and
    whose callback complains all the same makes [wait] return that
    complaint. *)
Lemma exit_zero_but_callback_complains :
  (∀ t, t ∈ [shellcheck complain ok_world] → exits_zero t)
  ∧ ¬ (∀ s r,
         rtc (step (platform := example_platform))
             (init (manager 1) [shellcheck complain ok_world]) s →
         caller s = Joined r → r = None).
Proof.
  split.
  { intros t Ht. apply list_elem_of_singleton in Ht as ->. by repeat split. }
  intros Hall.
  assert (∃ s e, schedule (platform := example_platform)
                   [None; None; Some 0; Some 0; Some 0; Some 0; None]%nat
                   (init (manager 1) [shellcheck complain ok_world]) = Some s
                 ∧ caller s = Joined (Some e)) as (s & e & Hrun & Hj).
  { eexists _, _. split; [vm_compute; reflexivity|reflexivity]. }
  apply schedule_rtc in Hrun. by specialize (Hall s _ Hrun Hj).
Qed.

Lemma all_exit_zero_wait_nil_witness :
  ∃ s, schedule (platform := example_platform) one_by_one
         (init (manager 1) [shellcheck quiet ok_world; shellcheck hand_on ok_world])
       = Some s
       ∧ caller s = Joined None.
Proof.
  eexists. split; [vm_compute; reflexivity|].
  match goal with |- caller ?s = _ =>
    destruct (caller s) as [| | | |r] eqn:Hj; try discriminate Hj; f_equal;
    refine (proj1 (all_exit_zero_wait_nil (platform := example_platform) 1
              [shellcheck quiet ok_world; shellcheck hand_on ok_world]
              (manager 1) eq_refl _ _) s r _ Hj)
  end.
  - intros t Ht. repeat (apply elem_of_cons in Ht as [->|Ht]); [..|by inversion Ht];
      by repeat split.
  - intros t Ht. by repeat (apply elem_of_cons in Ht as [->|Ht]); [..|inversion Ht].
  - apply schedule_rtc with (ths := one_by_one). vm_compute. reflexivity.
Defined.

(** C6 as stated fails: a parallelism of zero is accepted. *)
Lemma zero_parallelism_accepted : ¬ failed (newConcurrentProcess 0).
Proof. by intros []. Qed.

Lemma newConcurrentProcess_accepts_any_witness :
  newConcurrentProcess 0 = Return (manager 0)
  ∧ ∃ s, schedule (platform := example_platform) [None]
           (init (manager 0) [shellcheck quiet ok_world]) = Some s
         ∧ workers s = []
         ∧ caller s = AcquireDoomed (shellcheck quiet ok_world) []
         ∧ nf (step (platform := example_platform)) s.
Proof.
  split; [reflexivity|]. eexists. split; [vm_compute; reflexivity|].
  destruct (newConcurrentProcess_accepts_any (platform := example_platform) 0)
    as (p & Hp & _ & Hstuck).
  injection Hp as <-.
  match goal with |- workers ?s = _ ∧ _ =>
    destruct (Hstuck (Z.le_refl 0) (shellcheck quiet ok_world) [] s) as [Hw Hc]
  end.
  { apply schedule_rtc with (ths := [None]). vm_compute. reflexivity. }
  split; [exact Hw|]. split; [reflexivity|].
  destruct Hc as [Hc|[_ Hnf]]; [discriminate Hc|exact Hnf].
Defined.

Lemma in_flight_bounded_witness :
  ∃ s, schedule (platform := example_platform) [None; None; None; None; None]
         (init (manager 2) [shellcheck quiet ok_world; shellcheck quiet findings_world;
                            shellcheck quiet killed_world]) = Some s
       ∧ in_flight s = 2%nat
       ∧ Z.of_nat (in_flight s) ≤ 2.
Proof.
  eexists. split; [vm_compute; reflexivity|]. split; [reflexivity|].
  apply (in_flight_bounded (platform := example_platform) 2
           [shellcheck quiet ok_world; shellcheck quiet findings_world;
            shellcheck quiet killed_world] (manager 2));
    [lia|reflexivity|].
  apply schedule_rtc with (ths := [None; None; None; None; None]).
  vm_compute. reflexivity.
Defined.

Lemma wait_returns_after_all_callbacks_witness :
  ∃ s e, schedule (platform := example_platform) one_by_one
           (init (manager 1) [shellcheck complain ok_world; shellcheck quiet ok_world])
         = Some s
         ∧ caller s = Joined (Some e)
         ∧ ∃ stdout e',
             workers s !! 1%nat
             = Some (Finished (shellcheck quiet ok_world) stdout e'
                       (quiet stdout e')).
Proof.
  eexists _, _. split; [vm_compute; reflexivity|]. split; [reflexivity|].
  eapply (wait_returns_after_all_callbacks (platform := example_platform) 1
            [shellcheck complain ok_world; shellcheck quiet ok_world]
            (manager 1) _ _ 1 (shellcheck quiet ok_world));
    [reflexivity| |reflexivity|reflexivity].
  apply schedule_rtc with (ths := one_by_one). vm_compute. reflexivity.
Defined.

Lemma callback_error_reaches_wait_witness :
  ∃ s r, schedule (platform := example_platform) one_by_one
           (init (manager 1)
              [shellcheck quiet ok_world; shellcheck hand_on silent_failure_world])
         = Some s
         ∧ caller s = Joined r
         ∧ r ≠ None.
Proof.
  eexists _, _. split; [vm_compute; reflexivity|]. split; [reflexivity|].
  assert (Hin : shellcheck hand_on silent_failure_world
                ∈ [shellcheck quiet ok_world; shellcheck hand_on silent_failure_world])
    by (apply elem_of_cons; right; apply elem_of_cons; by left).
  assert (Hcb : callback_result (platform := example_platform)
                  (shellcheck hand_on silent_failure_world) ≠ None)
    by (vm_compute; discriminate).
  eapply (proj1 (callback_error_reaches_wait (platform := example_platform) 1
                   [shellcheck quiet ok_world; shellcheck hand_on silent_failure_world]
                   (manager 1) (shellcheck hand_on silent_failure_world)
                   eq_refl Hin Hcb)).
  - apply schedule_rtc with (ths := one_by_one). vm_compute. reflexivity.
  - reflexivity.
Defined.

Lemma output_and_error_exclusive_witness :
  fst <$> runProcessWithStdin (platform := example_platform)
            killed_world "shellcheck" ["-"] "echo hello"
  = Some None.
Proof.
  destruct (runProcessWithStdin (platform := example_platform)
              killed_world "shellcheck" ["-"] "echo hello")
    as [[stdout e]|] eqn:Hrun; [|discriminate Hrun].
  simpl. f_equal.
  apply (proj1 (output_and_error_exclusive (platform := example_platform))
           killed_world "shellcheck" ["-"] "echo hello" stdout e Hrun).
  intros ->. discriminate Hrun.
Defined.

(** * Further properties of runProcessWithStdin *)

Section RunnerPaths.
Context {platform : Platform}.

Lemma Sprintf_pipe (exe : string) (cause : error) :
  Sprintf "could not make stdin pipe for %s process: %w"
          [arg_string exe; arg_error cause]
  = "could not make stdin pipe for " +:+ exe +:+ " process: " +:+ Error cause.
Proof. rewrite <- (append_nil_r (Error cause)). reflexivity. Qed.

Lemma Sprintf_write (exe : string) (cause : error) :
  Sprintf "could not write to stdin of %s process: %w"
          [arg_string exe; arg_error cause]
  = "could not write to stdin of " +:+ exe +:+ " process: " +:+ Error cause.
Proof. rewrite <- (append_nil_r (Error cause)). reflexivity. Qed.

(** X1: when the stdin pipe cannot be made, nothing else is looked at:
    the result is a nil slice and an error that wraps the cause (so
    [Unwrap] finds it) under a message naming the executable. *)
Theorem stdin_pipe_failure_wrapped (w : ProcessWorld)
    (exe : string) (args : list string) (stdin : string) (cause : error) :
  StdinPipe w = Some cause →
  ∃ e, runProcessWithStdin w exe args stdin = Some (None, Some e)
       ∧ Unwrap e = Some cause
       ∧ Error e = "could not make stdin pipe for " +:+ exe
                     +:+ " process: " +:+ Error cause.
Proof.
  intros Hpipe. unfold runProcessWithStdin. rewrite Hpipe.
  eexists. split; [reflexivity|]. split; [reflexivity|].
  apply Sprintf_pipe.
Qed.

(** X2: when the pipe is there but writing the input fails, the process
    is not run: the result is a nil slice and an error that wraps the
    cause under a message naming the executable. *)
Theorem stdin_write_failure_wrapped (w : ProcessWorld)
    (exe : string) (args : list string) (stdin : string) (cause : error) :
  StdinPipe w = None →
  WriteString w = WriteReturns (Some cause) →
  ∃ e, runProcessWithStdin w exe args stdin = Some (None, Some e)
       ∧ Unwrap e = Some cause
       ∧ Error e = "could not write to stdin of " +:+ exe
                     +:+ " process: " +:+ Error cause.
Proof.
  intros Hpipe Hwrite. unfold runProcessWithStdin. rewrite Hpipe, Hwrite.
  eexists. split; [reflexivity|]. split; [reflexivity|].
  apply Sprintf_write.
Qed.

(** X3: [runProcessWithStdin] returns with a nil error exactly when both
    stdin steps went through and [cmd.Output] either had no error or had an
    [ExitError] with a non-negative code next to a non-empty stdout; the
    slice it then returns is the one [cmd.Output] gave. *)
Theorem runProcessWithStdin_succeeds_iff (w : ProcessWorld)
    (exe : string) (args : list string) (stdin : string) :
  ((∃ stdout, runProcessWithStdin w exe args stdin = Some (stdout, None)) ↔
     StdinPipe w = None ∧ WriteString w = WriteReturns None
     ∧ match (Output w).2 with
       | None => True
       | Some (ExitError ps _) => 0 ≤ ExitCode ps ∧ len (Output w).1 ≠ 0
       | Some _ => False
       end)
  ∧ (∀ stdout, runProcessWithStdin w exe args stdin = Some (stdout, None) →
               stdout = (Output w).1).
Proof.
  unfold runProcessWithStdin.
  destruct (StdinPipe w) as [e1|];
    [split; [split|]; [by intros [? ?]|by intros [? _]|done]|].
  destruct (WriteString w) as [|[e2|]];
    [split; [split|]; [by intros [? ?]|by intros (_ & ? & _)|done]..|].
  destruct (Output w) as [out [[ps Stderr|msg|msg|msg e3]|]]; simpl;
    try (split; [split|]; [by intros [? ?]|by intros (_ & _ & ?)|done]).
  - destruct (Z.ltb_spec (ExitCode ps) 0) as [Hneg|Hpos]; simpl.
    { split; [split|]; [by intros [? ?]| |done]. intros (_ & _ & ? & _). lia. }
    destruct (Z.eqb_spec (len out) 0) as [Hz|Hnz]; simpl.
    { split; [split|]; [by intros [? ?]| |done]. by intros (_ & _ & _ & ?). }
    split; [split; [done|by exists out]|]. by intros ? [= <-].
  - split; [split; [done|by exists out]|]. by intros ? [= <-].
Qed.

(** X4: whatever happens, the error [runProcessWithStdin] hands back is
    never an [ExitError] itself: a non-zero exit comes back as findings or
    as a formatted message. *)
Theorem ExitError_never_returned (w : ProcessWorld)
    (exe : string) (args : list string) (stdin : string)
    (stdout : bytes) (ps : ProcessState) (Stderr : bytes) :
  runProcessWithStdin w exe args stdin
  ≠ Some (stdout, Some (ExitError ps Stderr)).
Proof.
  unfold runProcessWithStdin.
  destruct (StdinPipe w); [done|]. destruct (WriteString w) as [|[e2|]]; [done..|].
  destruct (Output w) as [out [[ps' Stderr'| | |]|]]; simpl; try done.
  destruct (ExitCode ps' <? 0); [done|]. by destruct (len out =? 0).
Qed.

End RunnerPaths.

(** * Further properties of the manager *)

Section ManagerRuns.
Context {platform : Platform}.

Lemma worker_can_step (s : State) (i : nat) (w : Worker) :
  crashed s = None → workers s !! i = Some w → (0 < unfinished w)%nat →
  is_Some (result_of (task_of w)) →
  ∃ s', step s s'.
Proof.
  intros Hcr Hi Hw [[o e] Hres].
  assert (is_Some (step_worker i s)) as [s' Hs']; [|by exists s'; split; eauto].
  unfold step_worker. rewrite Hi.
  destruct w; simpl in *; try done; try lia.
  - unfold result_of in Hres. by rewrite Hres.
  - destruct (Release _ _); [|done]. by destruct (notifyWaiters _ _).
Qed.

Lemma can_step (N : Z) (tasks : list Task) (s : State) :
  1 ≤ N → (∀ t, t ∈ tasks → stdin_write_returns t) →
  inv N tasks s → (∃ r, caller s = Joined r) ∨ ∃ s', step s s'.
Proof.
  intros HN Hwr [Hcr Hsz Hcur Hbd Hwait Hdoom Hclosed Hwg Herr Htasks Hws Hj].
  assert (Hres : ∀ i w, workers s !! i = Some w →
                   is_Some (result_of (task_of w))).
  { intros i w Hi. apply write_returns_result, Hwr.
    by eapply worker_task_submitted. }
  unfold in_flight in Hcur.
  destruct (caller s) as [[|t todo]|t todo|t todo|t todo|r] eqn:Hc.
  - right. destruct (decide (wg (eg (proc s)) = 0)) as [Hz|Hnz].
    + eexists. split; [done|]. left. unfold step_caller. rewrite Hc.
      unfold wait, Group_Wait. rewrite Hz. reflexivity.
    + destruct (sum_list_with_pos unfinished (workers s)) as (i & w & Hi & Hw);
        [lia|]. eauto using worker_can_step.
  - right. destruct (run_acquire (proc s) t todo) as [p' c'] eqn:Hra.
    eexists. split; [done|]. left. unfold step_caller. rewrite Hc, Hra.
    reflexivity.
  - right. destruct (Hwait t todo eq_refl) as [_ Hfull]. simpl in Hcur.
    destruct (sum_list_with_pos holding (workers s)) as (i & w & Hi & Hw);
      [lia|]. apply (worker_can_step s i w); [done|done| |by eapply Hres].
    destruct w; simpl in *; lia.
  - destruct (Hdoom t todo eq_refl) as [? _]. lia.
  - right. eexists. split; [done|]. left. unfold step_caller. by rewrite Hc.
  - left. by exists r.
Qed.

Lemma reach_joined (N : Z) (tasks : list Task) (n : nat) (s : State) :
  1 ≤ N → (∀ t, t ∈ tasks → stdin_write_returns t) →
  inv N tasks s → (weight s ≤ n)%nat →
  ∃ s' r, rtc step s s' ∧ caller s' = Joined r.
Proof.
  intros HN Hwr. revert s. induction n as [|n IH]; intros s Hinv Hn.
  - destruct (can_step N tasks s HN Hwr Hinv) as [[r Hr]|[s' Hs']].
    + exists s, r. split; [apply rtc_refl|done].
    + apply step_weight in Hs'. lia.
  - destruct (can_step N tasks s HN Hwr Hinv) as [[r Hr]|[s1 Hs1]].
    + exists s, r. split; [apply rtc_refl|done].
    + destruct (IH s1) as (s' & r & Hrtc & Hr); [by eapply inv_step| |].
      { apply step_weight in Hs1. lia. }
      exists s', r. split; [by eapply rtc_l|done].
Qed.

Lemma finished_stays (s s' : State) (j : nat)
    (t : Task) (o : bytes) (x r : option error) :
  step s s' →
  workers s !! j = Some (Finished t o x r) →
  workers s' !! j = Some (Finished t o x r).
Proof.
  intros [_ [Hstep|[i Hstep]]] Hj.
  - unfold step_caller in Hstep.
    destruct (caller s) as [[|t1 todo]| | | |]; try done.
    + destruct (wait (proc s)); [|done]. by injection Hstep as <-.
    + destruct (run_acquire _ _ _). by injection Hstep as <-.
    + injection Hstep as <-. simpl. by apply lookup_app_l_Some.
  - unfold step_worker in Hstep.
    destruct (workers s !! i) as [w|] eqn:Hi; [|done].
    assert (i ≠ j) by (intros ->; rewrite Hj in Hi; by injection Hi as <-).
    destruct w as [t1|t1 o1 e1|t1 o1 e1|t1 o1 e1 r1|]; [| | | |done].
    + destruct (runProcessWithStdin _ _ _ _) as [[? ?]|]; [|done].
      injection Hstep as <-. simpl. by rewrite list_lookup_insert_ne.
    + destruct (Release _ _); [destruct (notifyWaiters _ _)|];
        injection Hstep as <-; simpl; [by rewrite list_lookup_insert_ne|done].
    + injection Hstep as <-. simpl. by rewrite list_lookup_insert_ne.
    + injection Hstep as <-. simpl. by rewrite list_lookup_insert_ne.
Qed.

(** A step leaves the error of the group alone, or sets it, from nil, to
    the error with which a goroutine has just finished. *)
Lemma step_err (s s' : State) :
  step s s' →
  err (eg (proc s')) = err (eg (proc s))
  ∨ (err (eg (proc s)) = None
     ∧ ∃ i t o x e, workers s' !! i = Some (Finished t o x (Some e))
                    ∧ err (eg (proc s')) = Some e).
Proof.
  intros [_ [Hstep|[i Hstep]]].
  - left. unfold step_caller in Hstep.
    destruct (caller s) as [[|t1 todo]| | | |]; try done.
    + destruct (wait (proc s)); [|done]. by injection Hstep as <-.
    + unfold run_acquire in Hstep.
      destruct (Acquire _ _); by injection Hstep as <-.
    + by injection Hstep as <-.
  - unfold step_worker in Hstep.
    destruct (workers s !! i) as [w|] eqn:Hi; [|done].
    destruct w as [t1|t1 o1 e1|t1 o1 e1|t1 o1 e1 r1|]; [| | | |done].
    + left. destruct (runProcessWithStdin _ _ _ _) as [[? ?]|]; [|done].
      by injection Hstep as <-.
    + left. destruct (Release _ _); [destruct (notifyWaiters _ _)|];
        by injection Hstep as <-.
    + left. by injection Hstep as <-.
    + injection Hstep as <-. simpl.
      destruct (err (eg (proc s))) as [e0|]; [by left|].
      destruct r1 as [e|]; [right|by left]. split; [done|].
      exists i, t1, o1, e1, e. split; [|done].
      apply list_lookup_insert_eq. by eapply lookup_lt_Some.
Qed.

Lemma err_sticks (s s' : State) (e : error) :
  rtc step s s' → err (eg (proc s)) = Some e → err (eg (proc s')) = Some e.
Proof.
  induction 1 as [|s1 s2 s3 Hstep _ IH]; [done|]. intros He. apply IH.
  destruct (step_err _ _ Hstep) as [->|[Hnone _]]; [done|congruence].
Qed.

Lemma err_provenance (s s' : State) :
  (∀ e, err (eg (proc s)) = Some e →
        ∃ i t o x, workers s !! i = Some (Finished t o x (Some e))) →
  rtc step s s' →
  ∀ e, err (eg (proc s')) = Some e →
       ∃ i t o x, workers s' !! i = Some (Finished t o x (Some e)).
Proof.
  intros Hs Hrtc. induction Hrtc as [|s1 s2 s3 Hstep _ IH]; [done|].
  apply IH. intros e He.
  destruct (step_err _ _ Hstep) as [Heq|(_ & i & t & o & x & e' & Hi & He')].
  - rewrite Heq in He. destruct (Hs e He) as (i & t & o & x & Hi).
    exists i, t, o, x. by eapply finished_stays.
  - rewrite He' in He. injection He as <-. by exists i, t, o, x.
Qed.

End ManagerRuns.

Section ManagerExtras.
Context {platform : Platform}.

Lemma holding_le_unfinished (ws : list Worker) :
  (sum_list_with holding ws ≤ sum_list_with unfinished ws)%nat.
Proof.
  induction ws as [|w ws IH]; simpl; [lia|]. destruct w; simpl; lia.
Qed.

(** X5: with at least one slot, and the input of every task written into
    its pipe, the program cannot hang or run forever: from every reachable
    state [wait] can still return, a run that cannot go on has [wait]
    returned, and no run is longer than [6 * length tasks + 2] steps. *)
Theorem manager_terminates (N : Z) (tasks : list Task) (p : concurrentProcess) :
  1 ≤ N →
  (∀ t, t ∈ tasks → stdin_write_returns t) →
  newConcurrentProcess N = Return p →
  (∀ s, rtc step (init p tasks) s →
        ∃ s' r, rtc step s s' ∧ caller s' = Joined r)
  ∧ (∀ s, rtc step (init p tasks) s → nf step s → ∃ r, caller s = Joined r)
  ∧ (∀ n s, nsteps step n (init p tasks) s → (n ≤ 6 * length tasks + 2)%nat).
Proof.
  intros HN Hwr Hp. split; [|split].
  - intros s Hs. eapply reach_joined; [done|done| |reflexivity].
    by eapply inv_reachable.
  - intros s Hs Hnf. by eapply wait_returns.
  - intros n s Hn. by eapply runs_are_bounded.
Qed.

(** X6: an error returned by [wait] is the error that the callback of one
    of the submitted tasks returned; [wait] makes up no error of its
    own. *)
Theorem wait_error_is_a_callback_error (N : Z) (tasks : list Task)
    (p : concurrentProcess) (s : State) (e : error) :
  newConcurrentProcess N = Return p →
  rtc step (init p tasks) s →
  caller s = Joined (Some e) →
  ∃ i t, tasks !! i = Some t ∧ callback_result t = Some e.
Proof.
  intros Hp Hs Hj.
  destruct (inv_reachable N tasks p s Hp Hs)
    as [_ _ _ _ _ _ _ _ _ Htasks Hws Hjoin].
  destruct (Hjoin _ Hj) as [He _]. symmetry in He.
  assert (Hinit : ∀ e', err (eg (proc (init p tasks))) = Some e' →
            ∃ i t o x, workers (init p tasks) !! i
                       = Some (Finished t o x (Some e'))).
  { injection Hp as <-. intros e' He'. discriminate He'. }
  destruct (err_provenance _ _ Hinit Hs e He) as (i & t & o & x & Hi).
  pose proof (Forall_lookup_1 _ _ _ _ Hws Hi) as [_ Hr].
  exists i, t. split; [|done].
  rewrite Htasks. apply lookup_app_l_Some.
  by rewrite list_lookup_fmap, Hi.
Qed.

(** X7: the first error that reaches the group is the one [wait] returns:
    once the group holds an error, whatever the other goroutines do and
    return afterwards, [wait] returns that error. *)
Theorem first_error_is_returned (N : Z) (tasks : list Task)
    (p : concurrentProcess) (s s' : State) (e : error) (r : option error) :
  newConcurrentProcess N = Return p →
  rtc step (init p tasks) s →
  err (eg (proc s)) = Some e →
  rtc step s s' →
  caller s' = Joined r →
  r = Some e.
Proof.
  intros Hp Hs He Hs' Hj.
  assert (Hreach : rtc step (init p tasks) s')
    by (transitivity s; assumption).
  destruct (inv_reachable N tasks p s' Hp Hreach)
    as [_ _ _ _ _ _ _ _ _ _ _ Hjoin].
  destruct (Hjoin _ Hj) as [-> _]. exact (err_sticks s s' e Hs' He).
Qed.

(** X8: the semaphore's counter is always the number of tasks between
    [Acquire] and [Release], and every slot has been given back when
    [wait] returns, whether the processes succeeded or not. *)
Theorem semaphore_counts_in_flight (N : Z) (tasks : list Task)
    (p : concurrentProcess) (s : State) :
  newConcurrentProcess N = Return p →
  rtc step (init p tasks) s →
  cur (sema (proc s)) = Z.of_nat (in_flight s)
  ∧ (∀ r, caller s = Joined r → cur (sema (proc s)) = 0).
Proof.
  intros Hp Hs.
  destruct (inv_reachable N tasks p s Hp Hs)
    as [_ _ Hcur _ _ _ _ Hwg _ _ _ Hjoin].
  split; [done|]. intros r Hj. destruct (Hjoin r Hj) as [_ Hz].
  rewrite Hcur. unfold in_flight. rewrite Hj. simpl.
  pose proof (holding_le_unfinished (workers s)). lia.
Qed.

(** X9: the program never panics: a goroutine that is about to call
    [Release] finds the semaphore holding at least its slot. *)
Theorem Release_never_panics (N : Z) (tasks : list Task)
    (p : concurrentProcess) (s : State) :
  newConcurrentProcess N = Return p →
  rtc step (init p tasks) s →
  crashed s = None
  ∧ (∀ i t stdout e, workers s !! i = Some (Ran t stdout e) →
       Release (sema (proc s)) 1
       = Return {| size := size (sema (proc s));
                   cur := cur (sema (proc s)) - 1 |}).
Proof.
  intros Hp Hs.
  destruct (inv_reachable N tasks p s Hp Hs) as [Hcr _ Hcur _ _ _ _ _ _ _ _ _].
  split; [done|]. intros i t o e Hi.
  pose proof (sum_list_with_insert holding _ _ _ (Released t o e) Hi) as Hsum.
  unfold in_flight in Hcur. simpl in Hsum. unfold Release.
  destruct (Z.ltb_spec (cur (sema (proc s)) - 1) 0); [lia|done].
Qed.

(** X10: goroutines are started in the order of submission, one per
    task and never a second one, and a callback is called with exactly
    what [runProcessWithStdin] returned for its own task. *)
Theorem goroutines_follow_submission (N : Z) (tasks : list Task)
    (p : concurrentProcess) (s : State) (i : nat) (w : Worker) :
  newConcurrentProcess N = Return p →
  rtc step (init p tasks) s →
  workers s !! i = Some w →
  tasks !! i = Some (task_of w)
  ∧ (∀ stdout e, callback_args w = Some (stdout, e) →
       Some (stdout, e) = result_of (task_of w)).
Proof.
  intros Hp Hs Hi.
  destruct (inv_reachable N tasks p s Hp Hs)
    as [_ _ _ _ _ _ _ _ _ Htasks Hws _].
  split.
  - rewrite Htasks. apply lookup_app_l_Some. by rewrite list_lookup_fmap, Hi.
  - intros o e Hargs. pose proof (Forall_lookup_1 _ _ _ _ Hws Hi) as Hok.
    destruct w; simplify_eq/=; by destruct Hok.
Qed.

(** X11: with no task submitted [wait] returns nil at once, whatever the
    parallelism, zero and negative values included. *)
Theorem wait_without_tasks (N : Z) (p : concurrentProcess) :
  newConcurrentProcess N = Return p →
  step_caller (init p [])
  = Some {| proc := p; caller := Joined None; workers := []; crashed := None |}
  ∧ (∀ s, rtc step (init p []) s →
          workers s = [] ∧ (caller s = Submitting [] ∨ caller s = Joined None)).
Proof.
  intros Hp. split; [by injection Hp as <-|].
  intros s Hs.
  destruct (inv_reachable N [] p s Hp Hs)
    as [_ _ _ _ _ _ _ _ Herr Htasks _ Hjoin].
  symmetry in Htasks. apply app_eq_nil in Htasks as [Hws Hpend].
  apply fmap_nil_inv in Hws. split; [done|].
  destruct (caller s) as [todo| | | |r]; simplify_eq/=; [by left|right].
  destruct (Hjoin r eq_refl) as [-> _]. f_equal. apply Herr.
  by rewrite Hws.
Qed.

(** X12: [run] waits in [Acquire] only while the gate is full: whenever
    the caller is queued there, exactly [N] tasks hold a slot. *)
Theorem caller_waits_only_when_full (N : Z) (tasks : list Task)
    (p : concurrentProcess) (s : State) (t : Task) (todo : list Task) :
  newConcurrentProcess N = Return p →
  rtc step (init p tasks) s →
  caller s = AcquireWait t todo →
  Z.of_nat (in_flight s) = N.
Proof.
  intros Hp Hs Hc.
  destruct (inv_reachable N tasks p s Hp Hs)
    as [_ _ Hcur Hbd Hwait _ _ _ _ _ _ _].
  destruct (Hwait t todo Hc). lia.
Qed.

(** X13: what [wait] returns is nil if and only if the callback of every
    submitted task returned nil. *)
Theorem wait_nil_iff (N : Z) (tasks : list Task)
    (p : concurrentProcess) (s : State) (r : option error) :
  newConcurrentProcess N = Return p →
  rtc step (init p tasks) s →
  caller s = Joined r →
  r = None ↔ ∀ t, t ∈ tasks → callback_result t = None.
Proof.
  intros Hp Hs Hj. rewrite <- Forall_forall. by eapply joined_result.
Qed.


End ManagerExtras.

(** * The further properties at concrete inputs *)

Lemma stdin_pipe_failure_wrapped_witness :
  ∃ e, runProcessWithStdin (platform := example_platform)
         {| StdinPipe := Some (OSError "pipe: too many open files");
            WriteString := WriteBlocks; Output := (None, None) |}
         "shellcheck" ["-"] "echo hello" = Some (None, Some e)
       ∧ Unwrap e = Some (OSError "pipe: too many open files")
       ∧ Error (platform := example_platform) e
         = "could not make stdin pipe for shellcheck process: pipe: too many open files".
Proof.
  apply (stdin_pipe_failure_wrapped (platform := example_platform)
           {| StdinPipe := Some (OSError "pipe: too many open files");
              WriteString := WriteBlocks; Output := (None, None) |}
           "shellcheck" ["-"] "echo hello"
           (OSError "pipe: too many open files")).
  reflexivity.
Defined.

Lemma stdin_write_failure_wrapped_witness :
  ∃ e, runProcessWithStdin (platform := example_platform)
         {| StdinPipe := None; WriteString := WriteReturns (Some (OSError "write |1: broken pipe"));
            Output := (None, None) |}
         "shellcheck" ["-"] "echo hello" = Some (None, Some e)
       ∧ Unwrap e = Some (OSError "write |1: broken pipe")
       ∧ Error (platform := example_platform) e
         = "could not write to stdin of shellcheck process: write |1: broken pipe".
Proof.
  apply (stdin_write_failure_wrapped (platform := example_platform)
           {| StdinPipe := None; WriteString := WriteReturns (Some (OSError "write |1: broken pipe"));
              Output := (None, None) |}
           "shellcheck" ["-"] "echo hello"
           (OSError "write |1: broken pipe")); reflexivity.
Defined.

Lemma manager_terminates_witness :
  ∃ s r, rtc (step (platform := example_platform))
           (init (manager 1) [shellcheck complain ok_world; shellcheck quiet killed_world]) s
         ∧ caller s = Joined r.
Proof.
  assert (Hwr : ∀ t, t ∈ [shellcheck complain ok_world; shellcheck quiet killed_world] →
                     stdin_write_returns t).
  { intros t Ht.
    repeat (apply elem_of_cons in Ht as [->|Ht]); [..|by inversion Ht];
      by exists None. }
  apply (proj1 (manager_terminates (platform := example_platform) 1
                  [shellcheck complain ok_world; shellcheck quiet killed_world]
                  (manager 1) ltac:(lia) Hwr eq_refl)).
  apply rtc_refl.
Defined.

Lemma wait_error_is_a_callback_error_witness :
  ∃ i t, [shellcheck complain ok_world; shellcheck hand_on silent_failure_world] !! i
         = Some t
         ∧ callback_result (platform := example_platform) t
           = Some (errorString "linter output rejected").
Proof.
  eapply (wait_error_is_a_callback_error (platform := example_platform) 1
            [shellcheck complain ok_world; shellcheck hand_on silent_failure_world]
            (manager 1)); [reflexivity| |].
  - apply schedule_rtc with (ths := one_by_one). vm_compute. reflexivity.
  - reflexivity.
Defined.

Lemma first_error_is_returned_witness :
  ∃ s s' r,
    schedule (platform := example_platform) (take 7 one_by_one)
      (init (manager 1)
         [shellcheck complain ok_world; shellcheck hand_on silent_failure_world])
    = Some s
    ∧ schedule (platform := example_platform) (drop 7 one_by_one) s = Some s'
    ∧ caller s' = Joined r
    ∧ r = Some (errorString "linter output rejected").
Proof.
  eexists _, _, _. split; [vm_compute; reflexivity|].
  split; [vm_compute; reflexivity|]. split; [reflexivity|].
  eapply (first_error_is_returned (platform := example_platform) 1
            [shellcheck complain ok_world; shellcheck hand_on silent_failure_world]
            (manager 1)); [reflexivity| | | |].
  - apply schedule_rtc with (ths := take 7 one_by_one). vm_compute. reflexivity.
  - reflexivity.
  - apply schedule_rtc with (ths := drop 7 one_by_one). vm_compute. reflexivity.
  - reflexivity.
Defined.

Lemma semaphore_counts_in_flight_witness :
  ∃ s, schedule (platform := example_platform) one_by_one
         (init (manager 1) [shellcheck quiet killed_world; shellcheck quiet not_started_world])
       = Some s
       ∧ cur (sema (proc s)) = 0.
Proof.
  eexists. split; [vm_compute; reflexivity|].
  match goal with |- cur (sema (proc ?s)) = _ =>
    destruct (semaphore_counts_in_flight (platform := example_platform) 1
                [shellcheck quiet killed_world; shellcheck quiet not_started_world]
                (manager 1) s eq_refl) as [_ Hfree]
  end.
  { apply schedule_rtc with (ths := one_by_one). vm_compute. reflexivity. }
  eapply Hfree. reflexivity.
Defined.

Lemma Release_never_panics_witness :
  ∃ s, schedule (platform := example_platform) [None; None; Some 0%nat]
         (init (manager 1) [shellcheck quiet ok_world]) = Some s
       ∧ crashed s = None
       ∧ Release (sema (proc s)) 1 = Return {| size := 1; cur := 0 |}.
Proof.
  eexists. split; [vm_compute; reflexivity|].
  match goal with |- crashed ?s = _ ∧ _ =>
    destruct (Release_never_panics (platform := example_platform) 1
                [shellcheck quiet ok_world] (manager 1) s eq_refl) as [Hcr Hrel]
  end.
  { apply schedule_rtc with (ths := [None; None; Some 0%nat]).
    vm_compute. reflexivity. }
  split; [exact Hcr|]. eapply (Hrel 0%nat). reflexivity.
Defined.

Lemma goroutines_follow_submission_witness :
  ∃ s w, schedule (platform := example_platform) one_by_one
           (init (manager 1) [shellcheck quiet ok_world; shellcheck hand_on killed_world])
         = Some s
         ∧ workers s !! 1%nat = Some w
         ∧ [shellcheck quiet ok_world; shellcheck hand_on killed_world] !! 1%nat
           = Some (task_of w).
Proof.
  eexists _, _. split; [vm_compute; reflexivity|].
  match goal with |- workers ?s !! _ = _ ∧ _ => set (st := s) end.
  split; [reflexivity|].
  refine (proj1 (goroutines_follow_submission (platform := example_platform) 1
                   [shellcheck quiet ok_world; shellcheck hand_on killed_world]
                   (manager 1) st 1%nat _ eq_refl _ eq_refl)).
  apply schedule_rtc with (ths := one_by_one). vm_compute. reflexivity.
Defined.

Lemma wait_without_tasks_witness :
  step_caller (init (manager 0) [])
  = Some {| proc := manager 0; caller := Joined None; workers := [];
            crashed := None |}.
Proof.
  apply (proj1 (wait_without_tasks (platform := example_platform) 0 (manager 0)
                  eq_refl)).
Defined.

Lemma caller_waits_only_when_full_witness :
  ∃ s, schedule (platform := example_platform) [None; None; None]
         (init (manager 1) [shellcheck quiet ok_world; shellcheck quiet ok_world])
       = Some s
       ∧ caller s = AcquireWait (shellcheck quiet ok_world) []
       ∧ Z.of_nat (in_flight s) = 1.
Proof.
  eexists. split; [vm_compute; reflexivity|]. split; [reflexivity|].
  eapply (caller_waits_only_when_full (platform := example_platform) 1
            [shellcheck quiet ok_world; shellcheck quiet ok_world] (manager 1));
    [reflexivity| |].
  - apply schedule_rtc with (ths := [None; None; None]). vm_compute. reflexivity.
  - reflexivity.
Defined.

Lemma wait_nil_iff_witness :
  ∃ s r, schedule (platform := example_platform) one_by_one
           (init (manager 1) [shellcheck quiet ok_world; shellcheck hand_on findings_world])
         = Some s
         ∧ caller s = Joined r
         ∧ (r = None ↔
            ∀ t, t ∈ [shellcheck quiet ok_world; shellcheck hand_on findings_world] →
                 callback_result (platform := example_platform) t = None).
Proof.
  eexists _, _. split; [vm_compute; reflexivity|]. split; [reflexivity|].
  eapply (wait_nil_iff (platform := example_platform) 1
            [shellcheck quiet ok_world; shellcheck hand_on findings_world]
            (manager 1)); [reflexivity| |].
  - apply schedule_rtc with (ths := one_by_one). vm_compute. reflexivity.
  - reflexivity.
Defined.

